(** * A todo-list widget and its host-global bridge (src/src/App.tsx)

    The widget is one React component.  Its logic is embedded here as pure
    functions over explicit state: the four pieces of component state
    ([theme], [displayMode], [todos], [inputValue]) are the fields of a
    record, every event handler is a function from the state before to the
    state after, and what the component renders is a function of the
    state.  The host object [window.openai] and the payload of the
    ["openai:set_globals"] event are JavaScript objects read by a computed
    key, so they are finite maps from property names to values. *)

From stdpp Require Import base option list gmap strings.
From Stdlib Require Import ZArith NArith Lia.

Local Open Scope Z_scope.

(** ** JavaScript values *)

Module Js.

(** A JavaScript string is a sequence of UTF-16 code units. *)
Definition JsString := list N.

(** The code units of an ASCII literal of the source. *)
Definition lit (s : string) : JsString :=
  map Ascii.N_of_ascii (String.list_ascii_of_string s).

(** The values a host global can hold.  [VNum n] is the number [n];
    [VObj r] is a reference to an object (a [Record<string, unknown>]),
    of which only its identity matters here. *)
Inductive JsVal : Type :=
| VUndefined
| VNull
| VBool (b : bool)
| VNum (n : Z)
| VNaN
| VStr (s : JsString)
| VObj (r : positive).

#[global] Instance JsVal_eq_dec : EqDecision JsVal.
Proof. solve_decision. Defined.

(** ToBoolean: what [if (v)] tests. *)
Definition truthy (v : JsVal) : bool :=
  match v with
  | VUndefined | VNull | VNaN => false
  | VBool b => b
  | VNum n => negb (n =? 0)
  | VStr s => match s with [] => false | _ :: _ => true end
  | VObj _ => true
  end.

(** Strict equality [===]; [NaN] equals nothing, itself included. *)
Definition strict_eq (a b : JsVal) : bool :=
  match a, b with
  | VNaN, _ | _, VNaN => false
  | _, _ => bool_decide (a = b)
  end.

(** [a !== b] *)
Definition strict_neq (a b : JsVal) : bool := negb (strict_eq a b).

(** WhiteSpace and LineTerminator code points of ECMAScript, the ones
    [String.prototype.trim] strips; all lie in the basic plane, so each
    is one code unit. *)
Definition is_white_space (c : N) : bool :=
  ((c =? 0x09) || (c =? 0x0A) || (c =? 0x0B) || (c =? 0x0C) || (c =? 0x0D)
   || (c =? 0x20) || (c =? 0xA0) || (c =? 0x1680)
   || ((0x2000 <=? c) && (c <=? 0x200A))
   || (c =? 0x2028) || (c =? 0x2029) || (c =? 0x202F) || (c =? 0x205F)
   || (c =? 0x3000) || (c =? 0xFEFF))%N.

Fixpoint trimStart (s : JsString) : JsString :=
  match s with
  | [] => []
  | c :: s' => if is_white_space c then trimStart s' else s
  end.

Definition trimEnd (s : JsString) : JsString :=
  reverse (trimStart (reverse s)).

(** [s.trim()] *)
Definition trim (s : JsString) : JsString := trimEnd (trimStart s).

(** A string as a condition: [if (s)] holds when [s] is not empty. *)
Definition truthy_string (s : JsString) : bool := truthy (VStr s).

(** Own properties of a plain object, by name.  A property can be
    present and hold [undefined]. *)
Definition get (o : gmap string JsVal) (k : string) : JsVal :=
  default VUndefined (o !! k).

(** [k in o] *)
Definition has (k : string) (o : gmap string JsVal) : bool :=
  bool_decide (is_Some (o !! k)).

(** What a call can do to its caller: return a value or throw one. *)
Inductive Completion (A : Type) : Type :=
| Normal (a : A)
| Throw (e : JsVal).
Arguments Normal {A} a.
Arguments Throw {A} e.

(** The promise an asynchronous host function hands back. *)
Inductive Promise : Type :=
| Pending
| Fulfilled
| Rejected (e : JsVal).

End Js.

Import Js.

(** ** The host interface (lines 1-20) *)

Module OpenAiGlobals.

(** [keyof OpenAiGlobals] *)
Inductive key : Type :=
| toolInput | toolOutput | toolResponseMetadata
| theme | displayMode | locale | userLocation.

#[global] Instance key_eq_dec : EqDecision key.
Proof. solve_decision. Defined.

(** The property name a key stands for.  None of them is a property of
    [Object.prototype], so reading one and testing it with [in] only
    ever consult an object's own properties. *)
Definition name (k : key) : string :=
  match k with
  | toolInput => "toolInput"
  | toolOutput => "toolOutput"
  | toolResponseMetadata => "toolResponseMetadata"
  | theme => "theme"
  | displayMode => "displayMode"
  | locale => "locale"
  | userLocation => "userLocation"
  end.

End OpenAiGlobals.

(** [{ mode: "fullscreen" | "pip" }] *)
Inductive Mode : Type := Fullscreen | Pip.

Record DisplayModeOptions : Type := { mode : Mode }.

(** [window.openai]: the globals as data properties, and the two optional
    functions.  A function of the host is given by what a call to it
    does: it returns a promise or throws. *)
Record HostObject : Type := {
  globals : gmap string JsVal;
  requestDisplayMode : option (DisplayModeOptions -> Completion Promise);
  callTool : option (JsString -> gmap string JsVal -> Completion Promise)
}.

Record Window : Type := { openai : option HostObject }.

(** [SetGlobalsEvent]: [detail.globals] is a partial set of globals. *)
Record SetGlobalsEvent : Type := { detail_globals : gmap string JsVal }.

(** ** The subscription hook [useOpenAiGlobal] (lines 23-35) *)

Module useOpenAiGlobal.

(** Line 24: [useState()] starts the held value at [undefined]. *)
Definition initial : JsVal := VUndefined.

(** [window.openai?.[key]] *)
Definition read (w : Window) (k : OpenAiGlobals.key) : JsVal :=
  match openai w with
  | None => VUndefined
  | Some o => get (globals o) (OpenAiGlobals.name k)
  end.

(** Line 26, the first statement of the effect: the held value after the
    effect has run, from the held value before. *)
Definition mount (w : Window) (k : OpenAiGlobals.key) (value : JsVal)
  : JsVal :=
  if truthy (read w k) then read w k else value.

(** Lines 27-30: the listener, as the held value after an event. *)
Definition handler (k : OpenAiGlobals.key) (event : SetGlobalsEvent)
    (value : JsVal) : JsVal :=
  if has (OpenAiGlobals.name k) (detail_globals event)
  then get (detail_globals event) (OpenAiGlobals.name k)
  else value.

(** The value the hook holds once the component is mounted. *)
Definition mounted (w : Window) (k : OpenAiGlobals.key) : JsVal :=
  mount w k initial.

(** The value held after a run of events, oldest first. *)
Definition after_events (k : OpenAiGlobals.key)
    (events : list SetGlobalsEvent) (value : JsVal) : JsVal :=
  foldl (fun v e => handler k e v) value events.

End useOpenAiGlobal.

(** ** The todo view (lines 40-150) *)

Module TodoItem.

(** [interface TodoItem]; an [id] is a [Date.now()] timestamp, a whole
    number of milliseconds. *)
Record t : Type := { id : Z; text : JsString; completed : bool }.

#[global] Instance t_eq_dec : EqDecision t.
Proof. solve_decision. Defined.

End TodoItem.

Module App.

(** The component's state: the two subscribed globals (lines 47-48) and
    the two [useState] cells (lines 49-50). *)
Record State : Type := {
  theme : JsVal;
  displayMode : JsVal;
  todos : list TodoItem.t;
  inputValue : JsString
}.

(** The state of the first render. *)
Definition initial : State :=
  {| theme := useOpenAiGlobal.initial;
     displayMode := useOpenAiGlobal.initial;
     todos := [];
     inputValue := lit "" |}.

(** The two hooks' effects on mount (line 26, once per hook). *)
Definition mount (w : Window) (st : State) : State :=
  {| theme := useOpenAiGlobal.mount w OpenAiGlobals.theme (theme st);
     displayMode :=
       useOpenAiGlobal.mount w OpenAiGlobals.displayMode (displayMode st);
     todos := todos st;
     inputValue := inputValue st |}.

(** An ["openai:set_globals"] event reaches the listener of each hook. *)
Definition set_globals (event : SetGlobalsEvent) (st : State) : State :=
  {| theme := useOpenAiGlobal.handler OpenAiGlobals.theme event (theme st);
     displayMode :=
       useOpenAiGlobal.handler OpenAiGlobals.displayMode event
         (displayMode st);
     todos := todos st;
     inputValue := inputValue st |}.

(** Lines 52-55: whether [document.documentElement] carries the class
    [dark] once the effect keyed on [theme] has run. *)
Definition dark_class (st : State) : bool :=
  if strict_eq (theme st) (VStr (lit "dark")) then true else false.

(** Line 100, [onChange]. *)
Definition setInputValue (value : JsString) (st : State) : State :=
  {| theme := theme st; displayMode := displayMode st;
     todos := todos st; inputValue := value |}.

(** Lines 57-62; [now] is what [Date.now()] returns during the call. *)
Definition addTodo (now : Z) (st : State) : State :=
  if truthy_string (trim (inputValue st)) then
    {| theme := theme st; displayMode := displayMode st;
       todos := todos st ++
                [ {| TodoItem.id := now;
                     TodoItem.text := inputValue st;
                     TodoItem.completed := false |} ];
       inputValue := lit "" |}
  else st.

(** The callback of [todos.map] at lines 65-67. *)
Definition toggle_item (id : Z) (todo : TodoItem.t) : TodoItem.t :=
  if TodoItem.id todo =? id
  then {| TodoItem.id := TodoItem.id todo;
          TodoItem.text := TodoItem.text todo;
          TodoItem.completed := negb (TodoItem.completed todo) |}
  else todo.

(** Lines 64-68. *)
Definition toggleTodo (id : Z) (st : State) : State :=
  {| theme := theme st; displayMode := displayMode st;
     todos := map (toggle_item id) (todos st);
     inputValue := inputValue st |}.

(** Lines 70-72. *)
Definition deleteTodo (id : Z) (st : State) : State :=
  {| theme := theme st; displayMode := displayMode st;
     todos := List.filter (fun todo => negb (TodoItem.id todo =? id))
                (todos st);
     inputValue := inputValue st |}.

(** A call the widget makes on the host. *)
Inductive HostCall : Type :=
| RequestDisplayMode (options : DisplayModeOptions).

(** What running a handler leaves behind: the component's state, the
    calls made on the host in order, and how the handler completed. *)
Record Outcome : Type := {
  state_after : State;
  calls : list HostCall;
  completion : Completion unit
}.

(** Lines 74-76.  The promise the host returns is dropped. *)
Definition requestFullscreen (w : Window) (st : State) : Outcome :=
  match openai w with
  | None => {| state_after := st; calls := []; completion := Normal () |}
  | Some o =>
      match requestDisplayMode o with
      | None =>
          {| state_after := st; calls := []; completion := Normal () |}
      | Some f =>
          {| state_after := st;
             calls := [RequestDisplayMode {| mode := Fullscreen |}];
             completion :=
               match f {| mode := Fullscreen |} with
               | Normal _ => Normal ()
               | Throw e => Throw e
               end |}
      end
  end.

(** What a render shows (lines 78-149), styling classes apart. *)
Record View : Type := {
  darkMode : bool;              (* line 78 *)
  expand_shown : bool;          (* lines 85-92 *)
  placeholder_shown : bool;     (* lines 115-118 *)
  rows : list TodoItem.t;       (* lines 121-139 *)
  remaining : nat;              (* line 145 *)
  total : nat                   (* line 145 *)
}.

Definition render (st : State) : View :=
  {| darkMode := strict_eq (theme st) (VStr (lit "dark"));
     expand_shown := strict_neq (displayMode st) (VStr (lit "fullscreen"));
     placeholder_shown := (length (todos st) =? 0)%nat;
     rows := todos st;
     remaining :=
       length (List.filter (fun t => negb (TodoItem.completed t)) (todos st));
     total := length (todos st) |}.

(** The user's and the host's operations on a mounted component. *)
Inductive Action : Type :=
| Change (value : JsString)
| AddTodo (now : Z)
| ToggleTodo (id : Z)
| DeleteTodo (id : Z)
| SetGlobals (event : SetGlobalsEvent).

Definition step (st : State) (a : Action) : State :=
  match a with
  | Change value => setInputValue value st
  | AddTodo now => addTodo now st
  | ToggleTodo id => toggleTodo id st
  | DeleteTodo id => deleteTodo id st
  | SetGlobals event => set_globals event st
  end.

Definition run (actions : list Action) (st : State) : State :=
  foldl step st actions.

(** The number of completed items of a list. *)
Definition completedCount (l : list TodoItem.t) : nat :=
  length (List.filter TodoItem.completed l).

(** The number of items of a list with a given id. *)
Definition occurrences (id : Z) (l : list TodoItem.t) : nat :=
  length (List.filter (fun todo => TodoItem.id todo =? id) l).

(** Lines 52-55 on the class list of [document.documentElement]: the
    classes after the effect keyed on [theme] has run, from the classes
    before. *)
Definition theme_effect (st : State) (classList : gset string)
  : gset string :=
  if strict_eq (theme st) (VStr (lit "dark"))
  then classList ∪ {[ "dark" ]}
  else classList ∖ {[ "dark" ]}.

(** Line 101, [onKeyPress]: [e.key === 'Enter' && addTodo()]. *)
Definition onKeyPress (key : JsString) (now : Z) (st : State) : State :=
  if bool_decide (key = lit "Enter") then addTodo now st else st.

(** Line 126: a change of the checkbox of the row at index [i] of the
    rendered list calls [toggleTodo] with that row's id. *)
Definition clickCheckbox (i : nat) (st : State) : State :=
  match rows (render st) !! i with
  | Some todo => toggleTodo (TodoItem.id todo) st
  | None => st
  end.

(** Line 133: a click on the Delete button of the row at index [i]. *)
Definition clickDelete (i : nat) (st : State) : State :=
  match rows (render st) !! i with
  | Some todo => deleteTodo (TodoItem.id todo) st
  | None => st
  end.

(** The events of a run of actions that come from the host. *)
Definition events_of (actions : list Action) : list SetGlobalsEvent :=
  omap (fun a => match a with SetGlobals e => Some e | _ => None end)
    actions.

(** The actions of a run that come from the user. *)
Definition user_actions (actions : list Action) : list Action :=
  List.filter (fun a => match a with SetGlobals _ => false | _ => true end)
    actions.

(** The times at which a run of actions calls [addTodo], in order. *)
Definition add_times (actions : list Action) : list Z :=
  omap (fun a => match a with AddTodo now => Some now | _ => None end)
    actions.

(** A clock that has moved on between any two calls of [addTodo], and
    since [last]. *)
Fixpoint clock_advances (last : Z) (actions : list Action) : Prop :=
  match actions with
  | [] => True
  | AddTodo now :: rest => last < now ∧ clock_advances now rest
  | _ :: rest => clock_advances last rest
  end.

(** The ids of a list, in order. *)
Definition ids (l : list TodoItem.t) : list Z := map TodoItem.id l.

(** The open and the completed items of a list that have a given id. *)
Definition open_with (id : Z) (l : list TodoItem.t) : nat :=
  length (List.filter
            (fun t => (TodoItem.id t =? id) && negb (TodoItem.completed t))
            l).

Definition done_with (id : Z) (l : list TodoItem.t) : nat :=
  length (List.filter
            (fun t => (TodoItem.id t =? id) && TodoItem.completed t) l).

End App.

(** ** Statements of the specification kept for comparison *)

(** "Removes exactly one matching item": [after] is [before] with one item
    of the given id taken out. *)
Definition removes_exactly_one (id : Z) (before after : list TodoItem.t)
  : Prop :=
  ∃ l1 x l2,
    before = l1 ++ x :: l2 ∧ TodoItem.id x = id ∧ after = l1 ++ l2.

(** The deletion property as the specification words it, at one state. *)
Definition deleteTodo_removes_one (id : Z) (st : App.State) : Prop :=
  ((∃ x, x ∈ App.todos st ∧ TodoItem.id x = id) →
   removes_exactly_one id (App.todos st) (App.todos (App.deleteTodo id st)))
  ∧ ((∀ x, x ∈ App.todos st → TodoItem.id x ≠ id) →
     App.todos (App.deleteTodo id st) = App.todos st).

(** A string that is empty or made of white space only. *)
Definition blank (s : JsString) : Prop :=
  Forall (fun c => is_white_space c = true) s.

(** ** Sample data *)

Definition buy_milk : JsString := lit "Buy milk".

(** A host that has supplied an empty locale and nothing else. *)
Definition host_empty_locale : Window :=
  {| openai := Some {| globals := {[ "locale" := VStr (lit "") ]};
                       requestDisplayMode := None;
                       callTool := None |} |}.

(** A host whose [requestDisplayMode] returns a promise that rejects. *)
Definition host_rejecting : Window :=
  {| openai := Some {| globals := ∅;
                       requestDisplayMode :=
                         Some (fun _ => Normal (Rejected VNull));
                       callTool := None |} |}.

(** Two items created in the same millisecond. *)
Definition twins : list TodoItem.t :=
  [ {| TodoItem.id := 7; TodoItem.text := lit "a";
       TodoItem.completed := false |};
    {| TodoItem.id := 7; TodoItem.text := lit "b";
       TodoItem.completed := false |} ].

Definition with_todos (l : list TodoItem.t) : App.State :=
  {| App.theme := VUndefined; App.displayMode := VUndefined;
     App.todos := l; App.inputValue := lit "" |}.

(** ** The listeners of the window (lines 27-32) *)

Module EventTarget.

(** A registered listener: the event type it is for and the identity of
    its callback.  The callback of the hook is a closure made anew by each
    run of the effect, so it has an identity of its own. *)
Record Listener : Type := { event_type : string; callback : nat }.

#[global] Instance Listener_eq_dec : EqDecision Listener.
Proof. solve_decision. Defined.

(** [addEventListener(type, callback)]: the listener goes to the end of
    the list, unless the same callback is there for the same type. *)
Definition addEventListener (ty : string) (cb : nat) (ls : list Listener)
  : list Listener :=
  if decide ({| event_type := ty; callback := cb |} ∈ ls)
  then ls
  else ls ++ [ {| event_type := ty; callback := cb |} ].

(** [removeEventListener(type, callback)]: the listener of that type and
    callback is taken out of the list, if it is there. *)
Fixpoint removeEventListener (ty : string) (cb : nat) (ls : list Listener)
  : list Listener :=
  match ls with
  | [] => []
  | l :: ls' =>
      if decide (l = {| event_type := ty; callback := cb |})
      then ls'
      else l :: removeEventListener ty cb ls'
  end.

End EventTarget.

Module Page.

Import EventTarget.

(** The window's listeners, and for every hook instance whose effect has
    run the field it is for and the value it holds, under the identity of
    the listener closure the effect made. *)
Record t : Type := {
  listeners : list Listener;
  cells : gmap nat (OpenAiGlobals.key * JsVal)
}.

(** Lines 24-31 for one hook instance: the first render and the effect. *)
Definition subscribe (w : Window) (cb : nat) (k : OpenAiGlobals.key)
    (p : t) : t :=
  {| listeners := addEventListener "openai:set_globals" cb (listeners p);
     cells := <[ cb := (k, useOpenAiGlobal.mounted w k) ]> (cells p) |}.

(** Line 32: the cleanup of the effect. *)
Definition unsubscribe (cb : nat) (p : t) : t :=
  {| listeners := removeEventListener "openai:set_globals" cb (listeners p);
     cells := cells p |}.

(** One call of the closure [cb] of lines 27-30 with an event. *)
Definition deliver (e : SetGlobalsEvent) (cb : nat)
    (cs : gmap nat (OpenAiGlobals.key * JsVal))
  : gmap nat (OpenAiGlobals.key * JsVal) :=
  alter (fun c => (c.1, useOpenAiGlobal.handler c.1 e c.2)) cb cs.

(** [dispatchEvent]: the listeners of the event's type are called in the
    order of their registration. *)
Definition dispatchEvent (ty : string) (e : SetGlobalsEvent) (p : t) : t :=
  {| listeners := listeners p;
     cells :=
       foldl (fun cs l =>
                if decide (event_type l = ty)
                then deliver e (callback l) cs else cs)
         (cells p) (listeners p) |}.

(** The value a hook instance holds, [undefined] when there is none. *)
Definition value_of (cb : nat) (p : t) : JsVal :=
  match cells p !! cb with
  | Some c => c.2
  | None => VUndefined
  end.

End Page.

(** ** The latest value a run of events carries for a field *)

Fixpoint last_carrying (k : OpenAiGlobals.key)
    (events : list SetGlobalsEvent) : option JsVal :=
  match events with
  | [] => None
  | e :: rest =>
      match last_carrying k rest with
      | Some v => Some v
      | None => detail_globals e !! OpenAiGlobals.name k
      end
  end.

(** A host whose [requestDisplayMode] throws. *)
Definition host_throwing : Window :=
  {| openai := Some {| globals := ∅;
                       requestDisplayMode :=
                         Some (fun _ => Throw (VStr (lit "denied")));
                       callTool := None |} |}.

(** Three items with ids of their own. *)
Definition three : list TodoItem.t :=
  [ {| TodoItem.id := 1; TodoItem.text := lit "a";
       TodoItem.completed := false |};
    {| TodoItem.id := 2; TodoItem.text := lit "b";
       TodoItem.completed := true |};
    {| TodoItem.id := 3; TodoItem.text := lit "c";
       TodoItem.completed := false |} ].

(** * Properties *)

(** ** Strings *)

Lemma trimStart_nil_iff (s : JsString) : trimStart s = [] ↔ blank s.
Proof.
  unfold blank. induction s as [|c s IH]; cbn [trimStart].
  - split; [constructor | reflexivity].
  - destruct (is_white_space c) eqn:Hc.
    + rewrite IH. split; [by constructor | by inversion 1].
    + split; [discriminate | inversion 1; congruence].
Qed.

Lemma blank_reverse (s : JsString) : blank (reverse s) ↔ blank s.
Proof. unfold blank. by rewrite Forall_reverse. Qed.

Lemma trimEnd_nil_iff (s : JsString) : trimEnd s = [] ↔ blank s.
Proof.
  unfold trimEnd. rewrite <- blank_reverse, <- trimStart_nil_iff.
  split; intros H.
  - apply (f_equal reverse) in H. by rewrite reverse_involutive in H.
  - by rewrite H.
Qed.

Lemma blank_trimStart (s : JsString) : blank (trimStart s) ↔ blank s.
Proof.
  unfold blank. induction s as [|c s IH]; cbn [trimStart]; [done|].
  destruct (is_white_space c) eqn:Hc; [|done].
  rewrite IH. split; [by constructor | by inversion 1].
Qed.

(** The trimmed form is empty exactly for the blank strings. *)
Lemma trim_nil_iff (s : JsString) : trim s = [] ↔ blank s.
Proof. unfold trim. by rewrite trimEnd_nil_iff, blank_trimStart. Qed.

Lemma truthy_string_iff (s : JsString) : truthy_string s = true ↔ s ≠ [].
Proof. unfold truthy_string. destruct s; cbn; split; congruence. Qed.

Lemma blank_dec (s : JsString) : {blank s} + {¬ blank s}.
Proof. unfold blank. apply Forall_dec. intros c. apply bool_eq_dec. Defined.

Example trim_keeps_inner_space :
  trim (lit "  Buy milk ") = buy_milk ∧ trim (lit "") = [] ∧
  trim [0x20; 0x09; 0xA0; 0x3000]%N = [].
Proof. by vm_compute. Qed.

(** ** The subscription hook *)

Lemma has_true_iff (k : string) (o : gmap string JsVal) :
  has k o = true ↔ is_Some (o !! k).
Proof. unfold has. by rewrite bool_decide_eq_true. Qed.

Lemma has_false_iff (k : string) (o : gmap string JsVal) :
  has k o = false ↔ o !! k = None.
Proof.
  unfold has. rewrite bool_decide_eq_false. by rewrite eq_None_not_Some.
Qed.

Lemma name_inj (k k' : OpenAiGlobals.key) :
  OpenAiGlobals.name k = OpenAiGlobals.name k' → k = k'.
Proof. by destruct k, k'. Qed.

(** C2.  When an ["openai:set_globals"] event arrives, a hook whose field
    is a key of the payload's globals takes the payload's value, whatever
    that value is (a falsy one and [undefined] included); a hook whose
    field is not a key of the payload keeps the value it held. *)
Theorem handler_replaces_when_present
    (k : OpenAiGlobals.key) (event : SetGlobalsEvent) (value : JsVal) :
  (∀ v, detail_globals event !! OpenAiGlobals.name k = Some v →
        useOpenAiGlobal.handler k event value = v)
  ∧ (detail_globals event !! OpenAiGlobals.name k = None →
     useOpenAiGlobal.handler k event value = value).
Proof.
  unfold useOpenAiGlobal.handler, get. split.
  - intros v Hv.
    assert (has (OpenAiGlobals.name k) (detail_globals event) = true) as ->
      by (apply has_true_iff; eauto).
    by rewrite Hv.
  - intros Hnone. apply has_false_iff in Hnone. by rewrite Hnone.
Qed.

Lemma handler_replaces_when_present_witness :
  useOpenAiGlobal.handler OpenAiGlobals.theme
    {| detail_globals := {[ "theme" := VUndefined ]} |}
    (VStr (lit "dark")) = VUndefined
  ∧ useOpenAiGlobal.handler OpenAiGlobals.theme
      {| detail_globals := {[ "displayMode" := VStr (lit "inline") ]} |}
      (VStr (lit "dark")) = VStr (lit "dark").
Proof.
  split.
  - apply (handler_replaces_when_present OpenAiGlobals.theme
             {| detail_globals := {[ "theme" := VUndefined ]} |}
             (VStr (lit "dark"))).
    reflexivity.
  - apply (handler_replaces_when_present OpenAiGlobals.theme
             {| detail_globals := {[ "displayMode" := VStr (lit "inline") ]} |}
             (VStr (lit "dark"))).
    reflexivity.
Defined.

(** A payload that carries one field leaves the hooks of the other
    fields alone. *)
Lemma handler_other_field
    (k k' : OpenAiGlobals.key) (v value : JsVal) :
  k ≠ k' →
  useOpenAiGlobal.handler k'
    {| detail_globals := {[ OpenAiGlobals.name k := v ]} |} value = value.
Proof.
  intros Hne. apply handler_replaces_when_present. simpl.
  apply lookup_singleton_ne. intros Heq. by apply Hne, name_inj.
Qed.

(** The scenario of the specification: a push of [theme = "dark"] makes
    the theme dark and puts the marker on the document; a later push
    without [theme] leaves both as they are. *)
Example dark_theme_scenario :
  let e1 := {| detail_globals := {[ "theme" := VStr (lit "dark") ]} |} in
  let e2 := {| detail_globals := {[ "locale" := VStr (lit "fr") ]} |} in
  let st1 := App.set_globals e1 App.initial in
  let st2 := App.set_globals e2 st1 in
  App.theme st1 = VStr (lit "dark") ∧ App.dark_class st1 = true
  ∧ App.theme st2 = VStr (lit "dark") ∧ App.dark_class st2 = true.
Proof. by vm_compute. Qed.

(** On mount a truthy value of the host is taken over. *)
Lemma mounted_truthy (w : Window) (k : OpenAiGlobals.key) :
  truthy (useOpenAiGlobal.read w k) = true →
  useOpenAiGlobal.mounted w k = useOpenAiGlobal.read w k.
Proof.
  intros H. unfold useOpenAiGlobal.mounted, useOpenAiGlobal.mount.
  by rewrite H.
Qed.

(** Without a host object, or without the field on it, the hook holds
    [undefined] after mount. *)
Lemma mounted_absent (w : Window) (k : OpenAiGlobals.key) :
  (openai w = None
   ∨ ∃ o, openai w = Some o ∧ globals o !! OpenAiGlobals.name k = None) →
  useOpenAiGlobal.mounted w k = VUndefined.
Proof.
  unfold useOpenAiGlobal.mounted, useOpenAiGlobal.mount,
    useOpenAiGlobal.read, get.
  intros [-> | (o & -> & ->)]; reflexivity.
Qed.

(** A falsy value of the host is never taken over on mount: the hook
    keeps the [undefined] it started with. *)
Lemma mounted_falsy (w : Window) (k : OpenAiGlobals.key) :
  truthy (useOpenAiGlobal.read w k) = false →
  useOpenAiGlobal.mounted w k = VUndefined.
Proof.
  intros H. unfold useOpenAiGlobal.mounted, useOpenAiGlobal.mount.
  by rewrite H.
Qed.

(** C4.  With [window.openai = { locale: "" }] the field [locale] is
    present on the host object and holds the empty string, yet the hook
    for [locale] holds [undefined] after mount, whereas the same value
    delivered by an event is taken over. *)
Theorem mounted_skips_present_empty_string :
  (∃ o, openai host_empty_locale = Some o
        ∧ globals o !! OpenAiGlobals.name OpenAiGlobals.locale
          = Some (VStr (lit "")))
  ∧ useOpenAiGlobal.mounted host_empty_locale OpenAiGlobals.locale
    = VUndefined
  ∧ useOpenAiGlobal.handler OpenAiGlobals.locale
      {| detail_globals := {[ "locale" := VStr (lit "") ]} |} VUndefined
    = VStr (lit "").
Proof.
  split; [|split].
  - eexists. split; [reflexivity|]. reflexivity.
  - reflexivity.
  - reflexivity.
Qed.

(** ** Adding *)

Lemma addTodo_appends (now : Z) (st : App.State) :
  trim (App.inputValue st) ≠ [] →
  App.addTodo now st
  = {| App.theme := App.theme st; App.displayMode := App.displayMode st;
       App.todos := App.todos st ++
                    [ {| TodoItem.id := now;
                         TodoItem.text := App.inputValue st;
                         TodoItem.completed := false |} ];
       App.inputValue := [] |}.
Proof.
  intros Hne. apply truthy_string_iff in Hne.
  unfold App.addTodo. by rewrite Hne.
Qed.

Lemma addTodo_blank (now : Z) (st : App.State) :
  blank (App.inputValue st) → App.addTodo now st = st.
Proof.
  intros Hb. apply trim_nil_iff in Hb. unfold App.addTodo. by rewrite Hb.
Qed.

(** C1.  With an input whose trimmed form is not empty, [addTodo] appends
    one item, made of the current time, the input as typed and
    [completed = false], at the end of the list and empties the input;
    with an empty or white-space-only input it changes nothing. *)
Theorem addTodo_spec (now : Z) (st : App.State) :
  (trim (App.inputValue st) ≠ [] →
   App.todos (App.addTodo now st)
   = App.todos st ++ [ {| TodoItem.id := now;
                          TodoItem.text := App.inputValue st;
                          TodoItem.completed := false |} ]
   ∧ App.inputValue (App.addTodo now st) = []
   ∧ length (App.todos (App.addTodo now st)) = S (length (App.todos st)))
  ∧ (blank (App.inputValue st) → App.addTodo now st = st).
Proof.
  split.
  - intros Hne. rewrite (addTodo_appends now st Hne). cbn.
    repeat split. rewrite length_app. cbn. lia.
  - apply addTodo_blank.
Qed.

Lemma addTodo_spec_witness :
  App.todos (App.addTodo 1700000000000
               (App.setInputValue (lit " Buy milk") App.initial))
  = [ {| TodoItem.id := 1700000000000;
         TodoItem.text := lit " Buy milk";
         TodoItem.completed := false |} ]
  ∧ App.addTodo 1700000000000 (App.setInputValue (lit "  ") App.initial)
    = App.setInputValue (lit "  ") App.initial.
Proof.
  split.
  - apply (addTodo_spec 1700000000000
             (App.setInputValue (lit " Buy milk") App.initial)).
    vm_compute. discriminate.
  - apply (addTodo_spec 1700000000000
             (App.setInputValue (lit "  ") App.initial)).
    vm_compute. repeat constructor.
Defined.

(** Every input is of one of the two kinds. *)
Lemma addTodo_length (now : Z) (st : App.State) :
  length (App.todos (App.addTodo now st))
  = if blank_dec (App.inputValue st)
    then length (App.todos st) else S (length (App.todos st)).
Proof.
  destruct (blank_dec (App.inputValue st)) as [Hb | Hb].
  - by rewrite (addTodo_blank now st Hb).
  - rewrite addTodo_appends by (by rewrite trim_nil_iff).
    cbn. rewrite length_app. cbn. lia.
Qed.

(** The first scenario of the specification, as rendered. *)
Example buy_milk_scenario :
  let st := App.run [App.Change buy_milk; App.AddTodo 1700000000000]
              App.initial in
  App.rows (App.render st)
  = [ {| TodoItem.id := 1700000000000; TodoItem.text := buy_milk;
         TodoItem.completed := false |} ]
  ∧ App.inputValue st = []
  ∧ App.remaining (App.render st) = 1%nat
  ∧ App.total (App.render st) = 1%nat
  ∧ App.placeholder_shown (App.render st) = false.
Proof. by vm_compute. Qed.

(** ** Deleting *)

Lemma filter_ne_elem_of (id : Z) (l : list TodoItem.t) (x : TodoItem.t) :
  x ∈ List.filter (fun todo => negb (TodoItem.id todo =? id)) l
  ↔ x ∈ l ∧ TodoItem.id x ≠ id.
Proof.
  rewrite !list_elem_of_In, filter_In, negb_true_iff, Z.eqb_neq. tauto.
Qed.

Lemma filter_sublist {A} (f : A → bool) (l : list A) :
  sublist (List.filter f l) l.
Proof.
  induction l as [|x l IH]; cbn; [constructor|].
  destruct (f x); by constructor.
Qed.

Lemma filter_split_length {A} (f : A → bool) (l : list A) :
  (length (List.filter f l)
   + length (List.filter (fun x => negb (f x)) l) = length l)%nat.
Proof.
  induction l as [|x l IH]; cbn; [done|].
  destruct (f x); cbn; lia.
Qed.

Lemma filter_ne_none (id : Z) (l : list TodoItem.t) :
  (∀ x, x ∈ l → TodoItem.id x ≠ id) →
  List.filter (fun todo => negb (TodoItem.id todo =? id)) l = l.
Proof.
  induction l as [|x l IH]; intros H; cbn; [done|].
  assert ((TodoItem.id x =? id) = false) as ->
    by (apply Z.eqb_neq, H; constructor).
  cbn. f_equal. apply IH. intros y Hy. apply H. by constructor.
Qed.

Lemma occurrences_zero (id : Z) (l : list TodoItem.t) :
  App.occurrences id l = 0%nat ↔ ∀ x, x ∈ l → TodoItem.id x ≠ id.
Proof.
  unfold App.occurrences. induction l as [|x l IH]; cbn.
  - split; [intros _ y Hy; inversion Hy | done].
  - destruct (TodoItem.id x =? id) eqn:Hx; cbn.
    + split; [done|]. intros H. apply Z.eqb_eq in Hx.
      exfalso. apply (H x); [constructor | done].
    + rewrite IH. apply Z.eqb_neq in Hx. split.
      * intros H y Hy. inversion Hy; subst; auto.
      * intros H y Hy. apply H. by constructor.
Qed.

Lemma filter_ne_unique (id : Z) (l : list TodoItem.t) :
  App.occurrences id l = 1%nat →
  removes_exactly_one id l
    (List.filter (fun todo => negb (TodoItem.id todo =? id)) l).
Proof.
  unfold removes_exactly_one.
  induction l as [|x l IH]; intros Hocc; [done|].
  unfold App.occurrences in Hocc. cbn in Hocc |- *.
  destruct (TodoItem.id x =? id) eqn:Hx; cbn in Hocc |- *.
  - exists [], x, l. apply Z.eqb_eq in Hx. repeat split; [done|].
    cbn. apply filter_ne_none, occurrences_zero.
    unfold App.occurrences. lia.
  - destruct (IH Hocc) as (l1 & y & l2 & -> & Hy & Hdel).
    exists (x :: l1), y, l2. repeat split; [done|].
    cbn. by f_equal.
Qed.

(** C3, as the code has it.  [deleteTodo] keeps, in their order, exactly
    the items whose id differs from the argument, so it takes out every
    item with that id: the list gets shorter by the number of such items;
    when exactly one item has the id, exactly that item goes; when none
    has it, the state is unchanged. *)
Theorem deleteTodo_spec (id : Z) (st : App.State) :
  (∀ x, x ∈ App.todos (App.deleteTodo id st)
        ↔ x ∈ App.todos st ∧ TodoItem.id x ≠ id)
  ∧ sublist (App.todos (App.deleteTodo id st)) (App.todos st)
  ∧ (length (App.todos (App.deleteTodo id st))
     + App.occurrences id (App.todos st) = length (App.todos st))%nat
  ∧ (App.occurrences id (App.todos st) = 1%nat →
     removes_exactly_one id (App.todos st)
       (App.todos (App.deleteTodo id st)))
  ∧ ((∀ x, x ∈ App.todos st → TodoItem.id x ≠ id) →
     App.deleteTodo id st = st).
Proof.
  destruct st as [th dm l inp]. cbn. split; [|split; [|split; [|split]]].
  - intros x. apply filter_ne_elem_of.
  - apply filter_sublist.
  - unfold App.occurrences.
    pose proof (filter_split_length (fun t => TodoItem.id t =? id) l). lia.
  - apply filter_ne_unique.
  - intros H. unfold App.deleteTodo. cbn. by rewrite filter_ne_none.
Qed.

Lemma deleteTodo_spec_witness :
  let c := {| TodoItem.id := 8; TodoItem.text := lit "c";
              TodoItem.completed := false |} in
  let d := {| TodoItem.id := 9; TodoItem.text := lit "d";
              TodoItem.completed := true |} in
  removes_exactly_one 8 [c; d]
    (App.todos (App.deleteTodo 8 (with_todos [c; d])))
  ∧ App.deleteTodo 7 (with_todos [c; d]) = with_todos [c; d].
Proof.
  intros c d. split.
  - apply (deleteTodo_spec 8 (with_todos [c; d])). reflexivity.
  - apply (deleteTodo_spec 7 (with_todos [c; d])).
    intros x Hx. apply list_elem_of_In in Hx.
    destruct Hx as [<- | [<- | []]]; cbn; lia.
Defined.

(** Two adds within one millisecond lead to the twins. *)
Lemma twins_reachable :
  App.run [App.Change (lit "a"); App.AddTodo 7;
           App.Change (lit "b"); App.AddTodo 7] App.initial
  = with_todos twins.
Proof. reflexivity. Qed.

(** C3, as the specification words it, fails: with two items of one id in
    the list, a state two adds within one millisecond lead to, deleting
    that id takes out both items, not exactly one. *)
Lemma deleteTodo_removes_both_twins :
  App.run [App.Change (lit "a"); App.AddTodo 7;
           App.Change (lit "b"); App.AddTodo 7] App.initial
  = with_todos twins
  ∧ App.todos (App.deleteTodo 7 (with_todos twins)) = []
  ∧ ¬ deleteTodo_removes_one 7 (with_todos twins).
Proof.
  split; [reflexivity|]. split; [reflexivity|].
  intros [H _].
  destruct H as (l1 & x & l2 & Hbefore & _ & Hafter).
  - exists {| TodoItem.id := 7; TodoItem.text := lit "a";
              TodoItem.completed := false |}.
    split; [constructor | reflexivity].
  - cbn in Hafter. symmetry in Hafter.
    apply app_eq_nil in Hafter as [-> ->].
    discriminate Hbefore.
Qed.

(** ** Toggling *)

Lemma toggle_item_involutive (id : Z) (x : TodoItem.t) :
  App.toggle_item id (App.toggle_item id x) = x.
Proof.
  unfold App.toggle_item. destruct x as [i t c]; cbn.
  destruct (i =? id) eqn:Hi; cbn; rewrite Hi; [|done].
  by rewrite negb_involutive.
Qed.

Lemma toggle_item_other (id : Z) (x : TodoItem.t) :
  TodoItem.id x ≠ id → App.toggle_item id x = x.
Proof.
  intros H. unfold App.toggle_item.
  by rewrite (proj2 (Z.eqb_neq _ _) H).
Qed.

Lemma toggle_item_match (id : Z) (x : TodoItem.t) :
  TodoItem.id x = id →
  App.toggle_item id x
  = {| TodoItem.id := TodoItem.id x; TodoItem.text := TodoItem.text x;
       TodoItem.completed := negb (TodoItem.completed x) |}.
Proof.
  intros H. unfold App.toggle_item.
  by rewrite (proj2 (Z.eqb_eq _ _) H).
Qed.

Lemma toggle_item_id (id : Z) (x : TodoItem.t) :
  TodoItem.id (App.toggle_item id x) = TodoItem.id x.
Proof. unfold App.toggle_item. by destruct (TodoItem.id x =? id). Qed.

Lemma toggle_item_text (id : Z) (x : TodoItem.t) :
  TodoItem.text (App.toggle_item id x) = TodoItem.text x.
Proof. unfold App.toggle_item. by destruct (TodoItem.id x =? id). Qed.

Lemma map_toggle_none (id : Z) (l : list TodoItem.t) :
  (∀ x, x ∈ l → TodoItem.id x ≠ id) → map (App.toggle_item id) l = l.
Proof.
  induction l as [|x l IH]; intros H; cbn; [done|].
  rewrite toggle_item_other by (apply H; constructor).
  f_equal. apply IH. intros y Hy. apply H. by constructor.
Qed.

(** C6.  Toggling the same id twice gives back the state one started
    from, so every item has its original [completed] flag again; toggling
    an id that no item has leaves the state as it is. *)
Theorem toggleTodo_twice (id : Z) (st : App.State) :
  App.toggleTodo id (App.toggleTodo id st) = st
  ∧ map TodoItem.completed
      (App.todos (App.toggleTodo id (App.toggleTodo id st)))
    = map TodoItem.completed (App.todos st)
  ∧ ((∀ x, x ∈ App.todos st → TodoItem.id x ≠ id) →
     App.toggleTodo id st = st).
Proof.
  destruct st as [th dm l inp]. unfold App.toggleTodo. cbn.
  assert (map (App.toggle_item id) (map (App.toggle_item id) l) = l) as Hinv.
  { rewrite map_map. induction l as [|x l IH]; cbn; [done|].
    by rewrite toggle_item_involutive, IH. }
  split; [by rewrite Hinv|]. split; [by rewrite Hinv|].
  intros H. by rewrite map_toggle_none.
Qed.

Lemma toggleTodo_twice_witness :
  App.toggleTodo 3 (with_todos twins) = with_todos twins.
Proof.
  apply (toggleTodo_twice 3 (with_todos twins)).
  intros x Hx. apply list_elem_of_In in Hx.
  destruct Hx as [<- | [<- | []]]; cbn; lia.
Defined.

(** C9.  [toggleTodo] keeps the length of the list, the id and the text
    at every position (hence the order of the items), every item whose id
    is not the argument, and the rest of the state. *)
Theorem toggleTodo_frame (id : Z) (st : App.State) :
  length (App.todos (App.toggleTodo id st)) = length (App.todos st)
  ∧ map TodoItem.id (App.todos (App.toggleTodo id st))
    = map TodoItem.id (App.todos st)
  ∧ map TodoItem.text (App.todos (App.toggleTodo id st))
    = map TodoItem.text (App.todos st)
  ∧ (∀ (i : nat) (x : TodoItem.t),
       App.todos st !! i = Some x → TodoItem.id x ≠ id →
       App.todos (App.toggleTodo id st) !! i = Some x)
  ∧ App.inputValue (App.toggleTodo id st) = App.inputValue st
  ∧ App.theme (App.toggleTodo id st) = App.theme st
  ∧ App.displayMode (App.toggleTodo id st) = App.displayMode st.
Proof.
  cbn. split; [apply length_map|].
  split; [|split; [|split; [|done]]].
  - rewrite map_map. apply map_ext. intros x. apply toggle_item_id.
  - rewrite map_map. apply map_ext. intros x. apply toggle_item_text.
  - intros i x Hi Hne. rewrite list_lookup_fmap, Hi. cbn.
    by rewrite toggle_item_other.
Qed.

Lemma toggleTodo_frame_witness :
  App.todos (App.toggleTodo 8
               (with_todos
                  (twins ++ [ {| TodoItem.id := 8; TodoItem.text := lit "c";
                                 TodoItem.completed := false |} ]))) !! 1%nat
  = Some {| TodoItem.id := 7; TodoItem.text := lit "b";
            TodoItem.completed := false |}.
Proof.
  apply (toggleTodo_frame 8
           (with_todos
              (twins ++ [ {| TodoItem.id := 8; TodoItem.text := lit "c";
                             TodoItem.completed := false |} ]))).
  - reflexivity.
  - cbn. lia.
Defined.

(** C10.  [toggleTodo] flips the [completed] flag of every item that has
    the given id, at whatever positions they are; and two adds within one
    millisecond do leave two items with one id in the list. *)
Theorem toggleTodo_flips_all_matching (id : Z) (st : App.State) :
  (∀ (i : nat) (x : TodoItem.t),
     App.todos st !! i = Some x → TodoItem.id x = id →
     App.todos (App.toggleTodo id st) !! i
     = Some {| TodoItem.id := TodoItem.id x;
               TodoItem.text := TodoItem.text x;
               TodoItem.completed := negb (TodoItem.completed x) |})
  ∧ (∀ (a b : JsString),
       trim a ≠ [] → trim b ≠ [] →
       App.occurrences id
         (App.todos
            (App.run [App.Change a; App.AddTodo id;
                      App.Change b; App.AddTodo id] st))
       = S (S (App.occurrences id (App.todos st)))).
Proof.
  split.
  - intros i x Hi Hid. cbn. rewrite list_lookup_fmap, Hi. cbn.
    by rewrite toggle_item_match.
  - intros a b Ha Hb. unfold App.run. cbn [foldl App.step].
    rewrite (addTodo_appends id (App.setInputValue a st)) by done.
    rewrite addTodo_appends by done.
    cbn. unfold App.occurrences.
    rewrite <- app_assoc, List.filter_app, length_app. cbn.
    rewrite Z.eqb_refl. cbn. lia.
Qed.

Lemma toggleTodo_flips_all_matching_witness :
  App.todos (App.toggleTodo 7 (with_todos twins)) !! 0%nat
  = Some {| TodoItem.id := 7; TodoItem.text := lit "a";
            TodoItem.completed := true |}
  ∧ App.todos (App.toggleTodo 7 (with_todos twins)) !! 1%nat
    = Some {| TodoItem.id := 7; TodoItem.text := lit "b";
              TodoItem.completed := true |}
  ∧ App.occurrences 7
      (App.todos
         (App.run [App.Change (lit "a"); App.AddTodo 7;
                   App.Change (lit "b"); App.AddTodo 7] App.initial))
    = 2%nat.
Proof.
  split; [|split].
  - apply (proj1 (toggleTodo_flips_all_matching 7 (with_todos twins)) 0%nat
             {| TodoItem.id := 7; TodoItem.text := lit "a";
                TodoItem.completed := false |}); reflexivity.
  - apply (proj1 (toggleTodo_flips_all_matching 7 (with_todos twins)) 1%nat
             {| TodoItem.id := 7; TodoItem.text := lit "b";
                TodoItem.completed := false |}); reflexivity.
  - apply (proj2 (toggleTodo_flips_all_matching 7 App.initial)
             (lit "a") (lit "b")); vm_compute; discriminate.
Defined.

(** ** Rendering *)

(** C5.  Whatever operations have run, from whatever state, the count the
    footer shows as remaining is the number of items minus the number of
    completed ones (and the latter never exceeds the former, so nothing is
    lost in the subtraction). *)
Theorem remaining_invariant (actions : list App.Action) (st0 : App.State) :
  let st := App.run actions st0 in
  App.remaining (App.render st)
  = (App.total (App.render st) - App.completedCount (App.todos st))%nat
  ∧ (App.remaining (App.render st) + App.completedCount (App.todos st)
     = length (App.todos st))%nat.
Proof.
  intros st. cbn. unfold App.completedCount.
  pose proof (filter_split_length TodoItem.completed (App.todos st)). lia.
Qed.

(** Each single operation keeps the footer's two numbers in step. *)
Lemma remaining_after_step (st : App.State) (a : App.Action) :
  (App.remaining (App.render (App.step st a))
   + App.completedCount (App.todos (App.step st a))
   = App.total (App.render (App.step st a)))%nat.
Proof.
  cbn. unfold App.completedCount.
  pose proof (filter_split_length TodoItem.completed
                (App.todos (App.step st a))). lia.
Qed.

Lemma strict_eq_string (v : JsVal) (s : JsString) :
  strict_eq v (VStr s) = true ↔ v = VStr s.
Proof.
  destruct v; cbn; rewrite ?bool_decide_eq_true; try done.
Qed.

(** C7.  The Expand control is left out of the render exactly when the
    display mode is the string ["fullscreen"]; with any other display
    mode, [undefined] included, it is rendered. *)
Theorem expand_hidden_iff_fullscreen (st : App.State) :
  (App.expand_shown (App.render st) = false
   ↔ App.displayMode st = VStr (lit "fullscreen"))
  ∧ (App.displayMode st ≠ VStr (lit "fullscreen") →
     App.expand_shown (App.render st) = true)
  ∧ (App.displayMode st = VUndefined →
     App.expand_shown (App.render st) = true).
Proof.
  cbn. unfold strict_neq. rewrite negb_false_iff, strict_eq_string.
  split; [done|]. split.
  - intros Hne. apply negb_true_iff, not_true_is_false.
    by rewrite strict_eq_string.
  - by intros ->.
Qed.

Lemma expand_hidden_iff_fullscreen_witness :
  App.expand_shown (App.render App.initial) = true
  ∧ App.expand_shown
      (App.render
         (App.set_globals
            {| detail_globals := {[ "displayMode" := VStr (lit "pip") ]} |}
            App.initial)) = true.
Proof.
  split.
  - apply (proj2 (proj2 (expand_hidden_iff_fullscreen App.initial))).
    reflexivity.
  - apply (proj1 (proj2 (expand_hidden_iff_fullscreen
                           (App.set_globals
                              {| detail_globals :=
                                   {[ "displayMode" := VStr (lit "pip") ]} |}
                              App.initial)))).
    vm_compute. discriminate.
Defined.

Example expand_hidden_in_fullscreen :
  App.expand_shown
    (App.render
       (App.set_globals
          {| detail_globals :=
               {[ "displayMode" := VStr (lit "fullscreen") ]} |}
          App.initial)) = false.
Proof. reflexivity. Qed.

(** ** Asking for fullscreen *)

(** C8.  Without [window.openai], or without its [requestDisplayMode],
    [requestFullscreen] calls nothing, completes normally and leaves the
    state alone.  With the function there, it makes the one call
    [requestDisplayMode({ mode: "fullscreen" })]; the state is the same
    afterwards whatever the host does, and when the call returns a
    promise, the handler completes normally with no value, whatever
    becomes of the promise. *)
Theorem requestFullscreen_spec (w : Window) (st : App.State) :
  ((openai w = None
    ∨ ∃ o, openai w = Some o ∧ requestDisplayMode o = None) →
   App.requestFullscreen w st
   = {| App.state_after := st; App.calls := [];
        App.completion := Normal () |})
  ∧ (∀ o f,
       openai w = Some o → requestDisplayMode o = Some f →
       App.calls (App.requestFullscreen w st)
       = [App.RequestDisplayMode {| mode := Fullscreen |}]
       ∧ App.state_after (App.requestFullscreen w st) = st
       ∧ (∀ p, f {| mode := Fullscreen |} = Normal p →
               App.completion (App.requestFullscreen w st) = Normal ())).
Proof.
  unfold App.requestFullscreen. split.
  - intros [-> | (o & -> & ->)]; reflexivity.
  - intros o f -> ->. cbn. repeat split. by intros p ->.
Qed.

Lemma requestFullscreen_spec_witness :
  App.requestFullscreen {| openai := None |} (with_todos twins)
  = {| App.state_after := with_todos twins; App.calls := [];
       App.completion := Normal () |}
  ∧ App.requestFullscreen host_empty_locale (with_todos twins)
    = {| App.state_after := with_todos twins; App.calls := [];
         App.completion := Normal () |}
  ∧ App.requestFullscreen host_rejecting (with_todos twins)
    = {| App.state_after := with_todos twins;
         App.calls := [App.RequestDisplayMode {| mode := Fullscreen |}];
         App.completion := Normal () |}.
Proof.
  split; [|split].
  - apply (requestFullscreen_spec {| openai := None |} (with_todos twins)).
    left. reflexivity.
  - apply (requestFullscreen_spec host_empty_locale (with_todos twins)).
    right. eexists. split; reflexivity.
  - destruct (proj2 (requestFullscreen_spec host_rejecting
                       (with_todos twins))
                _ _ eq_refl eq_refl) as (Hc & Hs & Hp).
    specialize (Hp (Rejected VNull) eq_refl).
    destruct (App.requestFullscreen host_rejecting (with_todos twins))
      as [s c r].
    cbn in Hc, Hs, Hp. by subst.
Defined.

(** * Further properties of the code *)

(** ** Runs of host events *)

(** The value a hook holds after a run of events is the value of the last
    event that carries its field, and the value it held before when no
    event of the run carries the field. *)
Theorem after_events_last_carrying
    (k : OpenAiGlobals.key) (events : list SetGlobalsEvent) (value : JsVal) :
  useOpenAiGlobal.after_events k events value
  = default value (last_carrying k events).
Proof.
  unfold useOpenAiGlobal.after_events.
  revert value. induction events as [|e rest IH]; intros value; [done|].
  cbn [foldl last_carrying]. rewrite IH.
  destruct (last_carrying k rest) as [u|]; [done|]. cbn.
  unfold useOpenAiGlobal.handler, get.
  destruct (detail_globals e !! OpenAiGlobals.name k) as [u|] eqn:He.
  - by rewrite (proj2 (has_true_iff _ _)) by (rewrite He; eauto).
  - by rewrite (proj2 (has_false_iff _ _) He).
Qed.

Lemma step_theme (st : App.State) (a : App.Action) :
  App.theme (App.step st a)
  = match a with
    | App.SetGlobals e =>
        useOpenAiGlobal.handler OpenAiGlobals.theme e (App.theme st)
    | _ => App.theme st
    end.
Proof.
  destruct a; cbn; try done. unfold App.addTodo.
  by destruct (truthy_string _).
Qed.

Lemma step_displayMode (st : App.State) (a : App.Action) :
  App.displayMode (App.step st a)
  = match a with
    | App.SetGlobals e =>
        useOpenAiGlobal.handler OpenAiGlobals.displayMode e
          (App.displayMode st)
    | _ => App.displayMode st
    end.
Proof.
  destruct a; cbn; try done. unfold App.addTodo.
  by destruct (truthy_string _).
Qed.

(** A step reads of the list and the input nothing but the list and the
    input. *)
Lemma step_same_list (st1 st2 : App.State) (a : App.Action) :
  App.todos st1 = App.todos st2 → App.inputValue st1 = App.inputValue st2 →
  App.todos (App.step st1 a) = App.todos (App.step st2 a)
  ∧ App.inputValue (App.step st1 a) = App.inputValue (App.step st2 a).
Proof.
  intros Ht Hi. destruct a; cbn; rewrite ?Ht, ?Hi; try done.
  unfold App.addTodo. rewrite Hi.
  destruct (truthy_string _); cbn; by rewrite ?Ht, ?Hi.
Qed.

Lemma run_same_list (actions : list App.Action) (st1 st2 : App.State) :
  App.todos st1 = App.todos st2 → App.inputValue st1 = App.inputValue st2 →
  App.todos (App.run actions st1) = App.todos (App.run actions st2)
  ∧ App.inputValue (App.run actions st1)
    = App.inputValue (App.run actions st2).
Proof.
  unfold App.run. revert st1 st2.
  induction actions as [|a rest IH]; intros st1 st2 Ht Hi; [done|].
  cbn [foldl]. destruct (step_same_list st1 st2 a Ht Hi). by apply IH.
Qed.

(** What the host pushes and what the user does never meet: after any run
    of actions the theme and the display mode are what the host's events
    alone make of them, and the list and the input are what the user's
    actions alone make of them. *)
Theorem host_and_user_halves (actions : list App.Action) (st : App.State) :
  App.theme (App.run actions st)
  = useOpenAiGlobal.after_events OpenAiGlobals.theme
      (App.events_of actions) (App.theme st)
  ∧ App.displayMode (App.run actions st)
    = useOpenAiGlobal.after_events OpenAiGlobals.displayMode
        (App.events_of actions) (App.displayMode st)
  ∧ App.todos (App.run actions st)
    = App.todos (App.run (App.user_actions actions) st)
  ∧ App.inputValue (App.run actions st)
    = App.inputValue (App.run (App.user_actions actions) st).
Proof.
  unfold App.run, useOpenAiGlobal.after_events. revert st.
  induction actions as [|a rest IH]; intros st; [done|].
  cbn [foldl]. destruct (IH (App.step st a)) as (Hth & Hdm & Ht & Hi).
  rewrite Hth, Hdm, Ht, Hi, step_theme, step_displayMode.
  destruct a as [v|now|id|id|e]; cbn [App.events_of App.user_actions omap
    List.filter foldl]; try done.
  repeat split; try done;
    by apply (run_same_list (App.user_actions rest)
                (App.step st (App.SetGlobals e)) st).
Qed.

(** ** Registering and removing the listener *)

Lemma remove_add_fresh (ty : string) (cb : nat)
    (ls : list EventTarget.Listener) :
  {| EventTarget.event_type := ty; EventTarget.callback := cb |} ∉ ls →
  EventTarget.removeEventListener ty cb
    (EventTarget.addEventListener ty cb ls) = ls.
Proof.
  intros Hfresh. unfold EventTarget.addEventListener.
  rewrite decide_False by done.
  induction ls as [|l ls IH]; cbn.
  - by rewrite decide_True.
  - rewrite decide_False by (intros ->; apply Hfresh; constructor).
    f_equal. apply IH. intros H. apply Hfresh. by constructor.
Qed.


(** The cleanup of the effect undoes its registration: with a closure
    that was not registered before, the window's listeners after
    subscribing and unsubscribing are the ones before, in their order. *)
Theorem subscribe_unsubscribe_listeners
    (w : Window) (cb : nat) (k : OpenAiGlobals.key) (p : Page.t) :
  (∀ l, l ∈ Page.listeners p → EventTarget.callback l ≠ cb) →
  Page.listeners (Page.unsubscribe cb (Page.subscribe w cb k p))
  = Page.listeners p.
Proof.
  intros Hfresh. cbn. apply remove_add_fresh.
  intros Hin. by apply (Hfresh _ Hin).
Qed.

Lemma subscribe_unsubscribe_listeners_witness :
  Page.listeners
    (Page.unsubscribe 1
       (Page.subscribe host_empty_locale 1 OpenAiGlobals.displayMode
          (Page.subscribe host_empty_locale 0 OpenAiGlobals.theme
             {| Page.listeners := []; Page.cells := ∅ |})))
  = [ {| EventTarget.event_type := "openai:set_globals";
         EventTarget.callback := 0%nat |} ].
Proof.
  apply (subscribe_unsubscribe_listeners host_empty_locale 1
           OpenAiGlobals.displayMode
           (Page.subscribe host_empty_locale 0 OpenAiGlobals.theme
              {| Page.listeners := []; Page.cells := ∅ |})).
  intros l Hl. apply list_elem_of_In in Hl.
  destruct Hl as [<- | []]. cbn. lia.
Defined.



(** The component's two hooks on a page of their own: an
    ["openai:set_globals"] event leaves them holding what [set_globals]
    gives the mounted component as theme and display mode. *)
Theorem page_dispatch_is_set_globals (w : Window) (e : SetGlobalsEvent) :
  let p := Page.subscribe w 1 OpenAiGlobals.displayMode
             (Page.subscribe w 0 OpenAiGlobals.theme
                {| Page.listeners := []; Page.cells := ∅ |}) in
  let st := App.set_globals e (App.mount w App.initial) in
  Page.value_of 0 (Page.dispatchEvent "openai:set_globals" e p)
  = App.theme st
  ∧ Page.value_of 1 (Page.dispatchEvent "openai:set_globals" e p)
    = App.displayMode st.
Proof.
  intros p st. unfold Page.value_of. cbn.
  replace (EventTarget.addEventListener "openai:set_globals" 1
             (EventTarget.addEventListener "openai:set_globals" 0 []))
    with [ {| EventTarget.event_type := "openai:set_globals";
              EventTarget.callback := 0%nat |};
           {| EventTarget.event_type := "openai:set_globals";
              EventTarget.callback := 1%nat |} ] by reflexivity.
  cbn [foldl EventTarget.event_type EventTarget.callback].
  rewrite !decide_True by done. unfold Page.deliver.
  split.
  - rewrite lookup_alter_ne by done. rewrite lookup_alter_eq.
    rewrite lookup_insert_ne by done. by rewrite lookup_insert_eq.
  - rewrite lookup_alter_eq. rewrite lookup_alter_ne by done.
    by rewrite lookup_insert_eq.
Qed.

(** ** How the list operations compose *)

Lemma filter_map_comm {A} (f : A → bool) (g : A → A) (l : list A) :
  (∀ x, f (g x) = f x) →
  List.filter f (map g l) = map g (List.filter f l).
Proof.
  intros Hfg. induction l as [|x l IH]; cbn; [done|].
  rewrite Hfg. destruct (f x); cbn; by rewrite IH.
Qed.

Lemma filter_filter_comm {A} (f g : A → bool) (l : list A) :
  List.filter f (List.filter g l) = List.filter g (List.filter f l).
Proof.
  induction l as [|x l IH]; cbn; [done|].
  destruct (f x) eqn:Hf, (g x) eqn:Hg; cbn; rewrite ?Hf, ?Hg, ?IH; done.
Qed.

Lemma filter_filter_same {A} (f : A → bool) (l : list A) :
  List.filter f (List.filter f l) = List.filter f l.
Proof.
  induction l as [|x l IH]; cbn; [done|].
  destruct (f x) eqn:Hf; cbn; rewrite ?Hf, ?IH; done.
Qed.

Lemma toggle_item_comm (a b : Z) (x : TodoItem.t) :
  App.toggle_item a (App.toggle_item b x)
  = App.toggle_item b (App.toggle_item a x).
Proof.
  unfold App.toggle_item. destruct x as [i t c]. cbn.
  destruct (i =? a) eqn:Ha, (i =? b) eqn:Hb; cbn; rewrite ?Ha, ?Hb; done.
Qed.

(** The order in which toggles and deletions are applied does not matter:
    a toggle and a deletion commute, whatever their ids, and so do two
    toggles and two deletions. *)
Theorem list_operations_commute (a b : Z) (st : App.State) :
  App.toggleTodo a (App.deleteTodo b st)
  = App.deleteTodo b (App.toggleTodo a st)
  ∧ App.toggleTodo a (App.toggleTodo b st)
    = App.toggleTodo b (App.toggleTodo a st)
  ∧ App.deleteTodo a (App.deleteTodo b st)
    = App.deleteTodo b (App.deleteTodo a st).
Proof.
  destruct st as [th dm l inp]. unfold App.toggleTodo, App.deleteTodo. cbn.
  split; [|split]; f_equal.
  - symmetry. apply filter_map_comm. intros x. by rewrite toggle_item_id.
  - rewrite !map_map. apply map_ext. intros x. apply toggle_item_comm.
  - apply filter_filter_comm.
Qed.

Lemma occurrences_filter_ne (id other : Z) (l : list TodoItem.t) :
  other ≠ id →
  App.occurrences other
    (List.filter (fun todo => negb (TodoItem.id todo =? id)) l)
  = App.occurrences other l.
Proof.
  intros Hne. unfold App.occurrences. rewrite filter_filter_comm.
  f_equal. induction l as [|x l IH]; cbn; [done|].
  destruct (TodoItem.id x =? other) eqn:Hx; cbn; [|done].
  apply Z.eqb_eq in Hx.
  rewrite (proj2 (Z.eqb_neq (TodoItem.id x) id)) by congruence.
  cbn. by rewrite IH.
Qed.

(** Deleting an id a second time changes nothing; after a deletion no
    item has the id; and the number of items of any other id is what it
    was. *)
Theorem deleteTodo_idempotent (id : Z) (st : App.State) :
  App.deleteTodo id (App.deleteTodo id st) = App.deleteTodo id st
  ∧ App.occurrences id (App.todos (App.deleteTodo id st)) = 0%nat
  ∧ (∀ other, other ≠ id →
       App.occurrences other (App.todos (App.deleteTodo id st))
       = App.occurrences other (App.todos st)).
Proof.
  destruct st as [th dm l inp]. unfold App.deleteTodo. cbn.
  split; [by rewrite filter_filter_same|]. split.
  - apply occurrences_zero. intros x Hx.
    by apply filter_ne_elem_of in Hx as [_ Hx].
  - intros other Hne. by apply occurrences_filter_ne.
Qed.

Lemma deleteTodo_idempotent_witness :
  App.occurrences 2 (App.todos (App.deleteTodo 1 (with_todos three)))
  = App.occurrences 2 (App.todos (with_todos three)).
Proof.
  apply (proj2 (proj2 (deleteTodo_idempotent 1 (with_todos three)))). lia.
Defined.

(** An item added and deleted at once leaves no trace in the list: the
    deletion of the id just used gives the list that deleting that id
    before the add would have given, and the list as it was when no older
    item has the id. *)
Theorem add_then_delete (now : Z) (st : App.State) :
  App.todos (App.deleteTodo now (App.addTodo now st))
  = App.todos (App.deleteTodo now st)
  ∧ (now ∉ App.ids (App.todos st) →
     App.todos (App.deleteTodo now (App.addTodo now st)) = App.todos st).
Proof.
  assert (App.todos (App.deleteTodo now (App.addTodo now st))
          = App.todos (App.deleteTodo now st)) as Heq.
  { destruct (blank_dec (App.inputValue st)) as [Hb | Hb].
    - by rewrite addTodo_blank.
    - rewrite addTodo_appends by (by rewrite trim_nil_iff). cbn.
      rewrite List.filter_app. cbn. rewrite Z.eqb_refl. cbn.
      by rewrite app_nil_r. }
  split; [done|]. intros Hfresh. rewrite Heq. cbn.
  apply filter_ne_none. intros x Hx Hid. apply Hfresh.
  unfold App.ids. rewrite <- Hid. by apply (list_elem_of_fmap_2 TodoItem.id).
Qed.

Lemma add_then_delete_witness :
  App.todos
    (App.deleteTodo 9
       (App.addTodo 9 (App.setInputValue buy_milk (with_todos three))))
  = three.
Proof.
  apply (proj2 (add_then_delete 9
                  (App.setInputValue buy_milk (with_todos three)))).
  intros Hin. apply list_elem_of_In in Hin. cbn in Hin.
  destruct Hin as [H | [H | [H | []]]]; discriminate H.
Defined.

(** ** The footer's numbers, operation by operation *)

Lemma remaining_toggle (id : Z) (l : list TodoItem.t) :
  (length (List.filter (fun t => negb (TodoItem.completed t))
             (map (App.toggle_item id) l))
   + App.open_with id l
   = length (List.filter (fun t => negb (TodoItem.completed t)) l)
     + App.done_with id l)%nat.
Proof.
  unfold App.open_with, App.done_with.
  induction l as [|x l IH]; cbn; [done|].
  unfold App.toggle_item at 1. destruct x as [i t c]. cbn.
  destruct (i =? id), c; cbn; lia.
Qed.

Lemma remaining_delete (id : Z) (l : list TodoItem.t) :
  (length (List.filter (fun t => negb (TodoItem.completed t))
             (List.filter (fun todo => negb (TodoItem.id todo =? id)%Z) l))
   + App.open_with id l
   = length (List.filter (fun t => negb (TodoItem.completed t)) l))%nat.
Proof.
  unfold App.open_with.
  induction l as [|x l IH]; cbn; [done|].
  destruct x as [i t c]. cbn.
  destruct (i =? id), c; cbn; lia.
Qed.

(** How each operation moves the count of remaining tasks: an add of a
    non-blank input raises it and the total by one; a toggle takes off the
    open items of the id and puts on its completed ones, the total staying;
    a deletion takes off the open items of the id. *)
Theorem footer_after_operation (now id : Z) (st : App.State) :
  (trim (App.inputValue st) ≠ [] →
   App.remaining (App.render (App.addTodo now st))
   = S (App.remaining (App.render st))
   ∧ App.total (App.render (App.addTodo now st))
     = S (App.total (App.render st)))
  ∧ (App.remaining (App.render (App.toggleTodo id st))
     + App.open_with id (App.todos st)
     = App.remaining (App.render st) + App.done_with id (App.todos st))%nat
  ∧ App.total (App.render (App.toggleTodo id st)) = App.total (App.render st)
  ∧ (App.remaining (App.render (App.deleteTodo id st))
     + App.open_with id (App.todos st)
     = App.remaining (App.render st))%nat.
Proof.
  split; [|split; [|split]].
  - intros Hne. rewrite addTodo_appends by done. cbn.
    rewrite List.filter_app, !length_app. cbn. lia.
  - cbn. apply remaining_toggle.
  - cbn. apply length_map.
  - cbn. apply remaining_delete.
Qed.

Lemma footer_after_operation_witness :
  App.remaining
    (App.render (App.addTodo 9 (App.setInputValue buy_milk (with_todos three))))
  = 3%nat.
Proof.
  apply (proj1 (footer_after_operation 9 0
                  (App.setInputValue buy_milk (with_todos three)))).
  vm_compute. discriminate.
Defined.

(** ** What holds of every list the component can reach *)

Lemma step_texts_not_blank (st : App.State) (a : App.Action) :
  Forall (fun t => ¬ blank (TodoItem.text t)) (App.todos st) →
  Forall (fun t => ¬ blank (TodoItem.text t)) (App.todos (App.step st a)).
Proof.
  intros H. destruct a as [v|now|id|id|e]; cbn; try done.
  - destruct (blank_dec (App.inputValue st)) as [Hb | Hb].
    + by rewrite addTodo_blank.
    + rewrite addTodo_appends by (by rewrite trim_nil_iff). cbn.
      apply Forall_app. split; [done|]. by repeat constructor.
  - induction H as [|x l Hx Hl IH]; cbn; constructor; [|done].
    by rewrite toggle_item_text.
  - induction H as [|x l Hx Hl IH]; cbn; [constructor|].
    destruct (negb _); [by constructor | done].
Qed.

(** Whatever the user and the host do from the first render on, no item
    of the list ever has an empty or white-space-only text. *)
Theorem texts_never_blank (actions : list App.Action) :
  Forall (fun t => ¬ blank (TodoItem.text t))
    (App.todos (App.run actions App.initial)).
Proof.
  assert (Forall (fun t => ¬ blank (TodoItem.text t))
            (App.todos App.initial)) as Hinit by constructor.
  unfold App.run. revert Hinit. generalize App.initial as st.
  induction actions as [|a rest IH]; intros st H; [done|].
  cbn [foldl]. by apply IH, step_texts_not_blank.
Qed.

Lemma step_ids_sublist (st : App.State) (a : App.Action) :
  App.ids (App.todos (App.step st a))
  `sublist_of` App.ids (App.todos st) ++ App.add_times [a].
Proof.
  unfold App.ids.
  destruct a as [v|now|id|id|e]; cbn; rewrite ?app_nil_r; try done.
  - unfold App.addTodo. destruct (truthy_string _); cbn.
    + by rewrite map_app.
    + by apply sublist_inserts_r.
  - rewrite map_map. erewrite map_ext; [done|].
    intros x. apply toggle_item_id.
  - apply (fmap_sublist TodoItem.id), filter_sublist.
Qed.

(** No operation reorders the list or brings in an id of its own: after
    any run of actions the ids of the list, in order, are some of the ids
    it started with followed by some of the times at which [addTodo] was
    called, so the list has grown by at most one item for each such call. *)
Theorem ids_come_in_order (actions : list App.Action) (st : App.State) :
  App.ids (App.todos (App.run actions st))
  `sublist_of` App.ids (App.todos st) ++ App.add_times actions
  ∧ (length (App.todos (App.run actions st))
     ≤ length (App.todos st) + length (App.add_times actions))%nat.
Proof.
  assert (App.ids (App.todos (App.run actions st))
          `sublist_of` App.ids (App.todos st) ++ App.add_times actions)
    as Hsub.
  { unfold App.run. revert st.
    induction actions as [|a rest IH]; intros st; cbn [foldl].
    - cbn. by rewrite app_nil_r.
    - etrans; [apply IH|].
      change (a :: rest) with ([a] ++ rest).
      unfold App.add_times. rewrite omap_app, app_assoc.
      apply sublist_app; [|done]. apply step_ids_sublist. }
  split; [done|]. apply sublist_length in Hsub.
  unfold App.ids in Hsub. by rewrite length_app, !length_map in Hsub.
Qed.

Lemma step_ids_distinct (last : Z) (st : App.State) (a : App.Action) :
  NoDup (App.ids (App.todos st)) →
  (∀ x, x ∈ App.ids (App.todos st) → x ≤ last) →
  App.clock_advances last [a] →
  let last' := match a with App.AddTodo now => now | _ => last end in
  NoDup (App.ids (App.todos (App.step st a)))
  ∧ (∀ x, x ∈ App.ids (App.todos (App.step st a)) → x ≤ last').
Proof.
  intros Hnd Hle Hclock. unfold App.ids in *.
  destruct a as [v|now|id|id|e]; cbn; try done.
  - destruct Hclock as [Hlt _]. unfold App.addTodo.
    destruct (truthy_string _); cbn.
    + rewrite map_app. cbn. split.
      * apply NoDup_app. split; [done|]. split; [|apply NoDup_singleton].
        intros x Hx Hx'. apply list_elem_of_singleton in Hx'. subst.
        specialize (Hle _ Hx). lia.
      * intros x [Hx | Hx]%elem_of_app.
        -- specialize (Hle _ Hx). lia.
        -- apply list_elem_of_singleton in Hx. lia.
    + split; [done|]. intros x Hx. specialize (Hle _ Hx). lia.
  - rewrite map_map.
    rewrite (map_ext _ TodoItem.id) by (intros x; apply toggle_item_id).
    done.
  - assert (map TodoItem.id
              (List.filter (fun todo => negb (TodoItem.id todo =? id))
                 (App.todos st))
            `sublist_of` map TodoItem.id (App.todos st)) as Hsub
      by apply (fmap_sublist TodoItem.id), filter_sublist.
    split; [by eapply sublist_NoDup|].
    intros x Hx. apply Hle. by eapply elem_of_sublist.
Qed.

(** When the clock has moved on between any two calls of [addTodo], the
    ids of the list stay distinct: a list of distinct ids, none of them
    later than [last], has distinct ids after any run of actions whose adds
    come at ever later times after [last]. *)
Theorem ids_distinct_when_clock_advances
    (actions : list App.Action) (last : Z) (st : App.State) :
  NoDup (App.ids (App.todos st)) →
  (∀ x, x ∈ App.ids (App.todos st) → x ≤ last) →
  App.clock_advances last actions →
  NoDup (App.ids (App.todos (App.run actions st))).
Proof.
  unfold App.run. revert last st.
  induction actions as [|a rest IH]; intros last st Hnd Hle Hclock; [done|].
  cbn [foldl].
  destruct (step_ids_distinct last st a Hnd Hle) as [Hnd' Hle'].
  { destruct a; cbn in Hclock |- *; tauto. }
  eapply IH; [done | apply Hle' |].
  destruct a; cbn in Hclock |- *; tauto.
Qed.

Lemma ids_distinct_when_clock_advances_witness :
  NoDup
    (App.ids
       (App.todos
          (App.run [App.Change (lit "a"); App.AddTodo 7; App.ToggleTodo 7;
                    App.Change (lit "b"); App.AddTodo 8; App.DeleteTodo 7;
                    App.Change (lit "c"); App.AddTodo 9]
             App.initial))).
Proof.
  apply (ids_distinct_when_clock_advances
           [App.Change (lit "a"); App.AddTodo 7; App.ToggleTodo 7;
            App.Change (lit "b"); App.AddTodo 8; App.DeleteTodo 7;
            App.Change (lit "c"); App.AddTodo 9]
           0 App.initial).
  - constructor.
  - intros x Hx. apply list_elem_of_In in Hx. destruct Hx.
  - cbn. lia.
Defined.

(** ** The rows' own controls *)

Lemma state_neq_todos (st1 st2 : App.State) :
  App.todos st1 ≠ App.todos st2 → st1 ≠ st2.
Proof. intros H ->. by apply H. Qed.

(** The checkbox of a row always acts on that row, also when other rows
    share its id: after the click the row has the same id and text and
    the opposite [completed], so the click is never without effect. *)
Theorem clickCheckbox_flips_row
    (i : nat) (st : App.State) (x : TodoItem.t) :
  App.todos st !! i = Some x →
  App.todos (App.clickCheckbox i st) !! i
  = Some {| TodoItem.id := TodoItem.id x; TodoItem.text := TodoItem.text x;
            TodoItem.completed := negb (TodoItem.completed x) |}
  ∧ App.clickCheckbox i st ≠ st.
Proof.
  intros Hi. unfold App.clickCheckbox. cbn. rewrite Hi.
  assert (App.todos (App.toggleTodo (TodoItem.id x) st) !! i
          = Some {| TodoItem.id := TodoItem.id x;
                    TodoItem.text := TodoItem.text x;
                    TodoItem.completed := negb (TodoItem.completed x) |})
    as Hflip.
  { cbn. rewrite list_lookup_fmap, Hi. cbn.
    by rewrite toggle_item_match. }
  split; [done|]. apply state_neq_todos. intros Heq.
  rewrite Heq, Hi in Hflip. injection Hflip as Hc.
  destruct x as [xi xt []]; discriminate Hc.
Qed.

Lemma clickCheckbox_flips_row_witness :
  App.todos (App.clickCheckbox 1 (with_todos twins)) !! 1%nat
  = Some {| TodoItem.id := 7; TodoItem.text := lit "b";
            TodoItem.completed := true |}.
Proof.
  apply (clickCheckbox_flips_row 1 (with_todos twins)
           {| TodoItem.id := 7; TodoItem.text := lit "b";
              TodoItem.completed := false |}).
  reflexivity.
Defined.

Lemma ids_lookup (l : list TodoItem.t) (i : nat) (x : TodoItem.t) :
  l !! i = Some x → App.ids l !! i = Some (TodoItem.id x).
Proof.
  intros H. unfold App.ids.
  change (map TodoItem.id l) with (TodoItem.id <$> l).
  by rewrite list_lookup_fmap, H.
Qed.

Lemma map_toggle_unique (l : list TodoItem.t) (i : nat) (x : TodoItem.t) :
  NoDup (App.ids l) → l !! i = Some x →
  map (App.toggle_item (TodoItem.id x)) l
  = <[ i := {| TodoItem.id := TodoItem.id x;
               TodoItem.text := TodoItem.text x;
               TodoItem.completed := negb (TodoItem.completed x) |} ]> l.
Proof.
  intros Hnd Hi. apply list_eq. intros j.
  change (map (App.toggle_item (TodoItem.id x)) l)
    with (App.toggle_item (TodoItem.id x) <$> l).
  rewrite list_lookup_fmap.
  destruct (decide (i = j)) as [<- | Hne].
  - rewrite list_lookup_insert_eq by (by eapply lookup_lt_Some).
    rewrite Hi. cbn. by rewrite toggle_item_match.
  - rewrite list_lookup_insert_ne by done.
    destruct (l !! j) as [y|] eqn:Hj; [|done]. cbn.
    rewrite toggle_item_other; [done|]. intros Heq. apply Hne.
    apply (NoDup_lookup (App.ids l) i j (TodoItem.id x)); [done| |].
    + by apply ids_lookup.
    + rewrite <- Heq. by apply ids_lookup.
Qed.

Lemma filter_ne_delete (l : list TodoItem.t) (i : nat) (x : TodoItem.t) :
  NoDup (App.ids l) → l !! i = Some x →
  List.filter (fun todo => negb (TodoItem.id todo =? TodoItem.id x)) l
  = delete i l.
Proof.
  revert i. induction l as [|y l IH]; intros i Hnd Hi; [done|].
  unfold App.ids in Hnd. cbn in Hnd. apply NoDup_cons in Hnd as [Hy Hnd].
  destruct i as [|i]; cbn in Hi |- *.
  - injection Hi as ->. rewrite Z.eqb_refl. cbn.
    apply filter_ne_none. intros z Hz Heq. apply Hy.
    rewrite <- Heq. by apply (list_elem_of_fmap_2 TodoItem.id).
  - assert (TodoItem.id y ≠ TodoItem.id x) as Hne.
    { intros Heq. apply Hy. rewrite Heq.
      apply (list_elem_of_fmap_2 TodoItem.id).
      by eapply list_elem_of_lookup_2. }
    rewrite (proj2 (Z.eqb_neq _ _) Hne). cbn. f_equal. by apply IH.
Qed.

(** In a list of distinct ids the controls of a row act on that row
    alone: its checkbox replaces the row by its flipped copy, leaving all
    other rows as they are, and its Delete button takes out the row and
    nothing else. *)
Theorem row_controls_with_distinct_ids
    (i : nat) (st : App.State) (x : TodoItem.t) :
  NoDup (App.ids (App.todos st)) →
  App.todos st !! i = Some x →
  App.todos (App.clickCheckbox i st)
  = <[ i := {| TodoItem.id := TodoItem.id x;
               TodoItem.text := TodoItem.text x;
               TodoItem.completed := negb (TodoItem.completed x) |} ]>
      (App.todos st)
  ∧ App.todos (App.clickDelete i st) = delete i (App.todos st)
  ∧ length (App.todos (App.clickDelete i st))
    = Nat.pred (length (App.todos st)).
Proof.
  intros Hnd Hi. unfold App.clickCheckbox, App.clickDelete. cbn.
  rewrite Hi. cbn.
  split; [by apply map_toggle_unique|].
  rewrite (filter_ne_delete _ i x) by done. split; [done|].
  rewrite length_delete by eauto. lia.
Qed.

Lemma row_controls_with_distinct_ids_witness :
  App.todos (App.clickDelete 1 (with_todos three))
  = [ {| TodoItem.id := 1; TodoItem.text := lit "a";
         TodoItem.completed := false |};
      {| TodoItem.id := 3; TodoItem.text := lit "c";
         TodoItem.completed := false |} ].
Proof.
  apply (proj1 (proj2 (row_controls_with_distinct_ids 1 (with_todos three)
                         {| TodoItem.id := 2; TodoItem.text := lit "b";
                            TodoItem.completed := true |}
                         ltac:(cbn; repeat constructor;
                               rewrite ?list_elem_of_In; cbn; lia)
                         eq_refl))).
Defined.

(** ** The input field's key handler *)

(** A key press changes the state exactly when the key is Enter and the
    input is not blank, and then it does what the Add button does. *)
Theorem onKeyPress_spec (key : JsString) (now : Z) (st : App.State) :
  (App.onKeyPress key now st ≠ st
   ↔ key = lit "Enter" ∧ ¬ blank (App.inputValue st))
  ∧ (key = lit "Enter" → App.onKeyPress key now st = App.addTodo now st).
Proof.
  unfold App.onKeyPress. split.
  - destruct (bool_decide (key = lit "Enter")) eqn:Hk.
    + apply bool_decide_eq_true in Hk. split.
      * intros Hne. split; [done|]. intros Hb. apply Hne.
        by apply addTodo_blank.
      * intros [_ Hb]. apply state_neq_todos.
        rewrite addTodo_appends by (by rewrite trim_nil_iff). cbn.
        intros Heq. apply (f_equal length) in Heq.
        rewrite length_app in Heq. cbn in Heq. lia.
    + apply bool_decide_eq_false in Hk. split; [done | tauto].
  - intros ->. by rewrite bool_decide_eq_true_2.
Qed.

Lemma onKeyPress_spec_witness :
  App.onKeyPress (lit "Enter") 9
    (App.setInputValue buy_milk (with_todos three))
  = App.addTodo 9 (App.setInputValue buy_milk (with_todos three)).
Proof.
  apply (proj2 (onKeyPress_spec (lit "Enter") 9
                  (App.setInputValue buy_milk (with_todos three)))).
  reflexivity.
Defined.

(** ** The dark marker and the placeholder *)

(** The effect keyed on the theme leaves the class [dark] on the document
    exactly when the theme is the string ["dark"], which is also exactly
    when the render is styled dark; it touches no other class; and
    running it again changes nothing. *)
Theorem theme_effect_spec (st : App.State) (classList : gset string) :
  ("dark" ∈ App.theme_effect st classList
   ↔ App.theme st = VStr (lit "dark"))
  ∧ (App.darkMode (App.render st) = true
     ↔ "dark" ∈ App.theme_effect st classList)
  ∧ (∀ c, c ≠ "dark" → c ∈ App.theme_effect st classList ↔ c ∈ classList)
  ∧ App.theme_effect st (App.theme_effect st classList)
    = App.theme_effect st classList.
Proof.
  unfold App.theme_effect, App.render. cbn [App.darkMode].
  pose proof (strict_eq_string (App.theme st) (lit "dark")) as Hs.
  destruct (strict_eq (App.theme st) (VStr (lit "dark"))).
  - assert (App.theme st = VStr (lit "dark")) as Hth by by apply Hs.
    assert ("dark" ∈ classList ∪ ({[ "dark" ]} : gset string)) as Hin
      by (apply elem_of_union_r; by apply elem_of_singleton).
    split; [|split; [|split]]; [tauto | tauto | |].
    + intros c Hc. rewrite elem_of_union, elem_of_singleton. tauto.
    + apply set_eq. intros c.
      rewrite !elem_of_union, elem_of_singleton. tauto.
  - assert (App.theme st ≠ VStr (lit "dark")) as Hth
      by (intros H; apply Hs in H; discriminate H).
    assert ("dark" ∉ classList ∖ ({[ "dark" ]} : gset string)) as Hin.
    { rewrite elem_of_difference, elem_of_singleton. tauto. }
    split; [|split; [|split]]; [tauto | split; [done | tauto] | |].
    + intros c Hc. rewrite elem_of_difference, elem_of_singleton. tauto.
    + apply set_eq. intros c.
      rewrite !elem_of_difference, elem_of_singleton. tauto.
Qed.

Lemma theme_effect_spec_witness :
  "widget" ∈ App.theme_effect App.initial {[ "widget"; "dark" ]}.
Proof.
  apply (proj1 (proj2 (proj2 (theme_effect_spec App.initial
                                {[ "widget"; "dark" ]})))).
  - discriminate.
  - apply elem_of_union_l. by apply elem_of_singleton.
Defined.

(** The placeholder stands in for the list exactly when the list is
    empty, then the footer reads 0 of 0; and an add of a non-blank input
    always takes it away. *)
Theorem placeholder_spec (now : Z) (st : App.State) :
  (App.placeholder_shown (App.render st) = true ↔ App.todos st = [])
  ∧ (App.placeholder_shown (App.render st) = true →
     App.remaining (App.render st) = 0%nat
     ∧ App.total (App.render st) = 0%nat)
  ∧ (trim (App.inputValue st) ≠ [] →
     App.placeholder_shown (App.render (App.addTodo now st)) = false).
Proof.
  cbn. rewrite Nat.eqb_eq, length_zero_iff_nil.
  split; [done|]. split.
  - intros ->. done.
  - intros Hne. rewrite addTodo_appends by done. cbn.
    apply Nat.eqb_neq. rewrite length_app. cbn. lia.
Qed.

Lemma placeholder_spec_witness :
  App.placeholder_shown
    (App.render (App.addTodo 9 (App.setInputValue buy_milk App.initial)))
  = false.
Proof.
  apply (proj2 (proj2 (placeholder_spec 9
                         (App.setInputValue buy_milk App.initial)))).
  vm_compute. discriminate.
Defined.

(** ** When the host's function throws *)

(** [requestFullscreen] never makes more than one call on the host, never
    asks for any mode but fullscreen, and never changes the component's
    state; it has no handler of its own, so a value thrown by the host's
    function is thrown on to its caller. *)
Theorem requestFullscreen_calls_and_throw (w : Window) (st : App.State) :
  (length (App.calls (App.requestFullscreen w st)) ≤ 1)%nat
  ∧ Forall (fun c => c = App.RequestDisplayMode {| mode := Fullscreen |})
      (App.calls (App.requestFullscreen w st))
  ∧ App.state_after (App.requestFullscreen w st) = st
  ∧ (∀ o f e,
       openai w = Some o → requestDisplayMode o = Some f →
       f {| mode := Fullscreen |} = Throw e →
       App.completion (App.requestFullscreen w st) = Throw e).
Proof.
  unfold App.requestFullscreen.
  destruct (openai w) as [o|];
    [destruct (requestDisplayMode o) as [f|] eqn:Hf|]; cbn;
    (split; [lia|]); (split; [by repeat constructor|]); (split; [done|]).
  - intros o' f' e [= <-] Hf' He. rewrite Hf in Hf'.
    injection Hf' as <-. by rewrite He.
  - intros o' f' e [= <-] Hf' He. rewrite Hf in Hf'. discriminate Hf'.
  - intros o' f' e Ho'. discriminate Ho'.
Qed.

Lemma requestFullscreen_calls_and_throw_witness :
  App.completion (App.requestFullscreen host_throwing (with_todos three))
  = Throw (VStr (lit "denied")).
Proof.
  apply (proj2 (proj2 (proj2 (requestFullscreen_calls_and_throw
                                host_throwing (with_todos three))))
           _ _ _ eq_refl eq_refl eq_refl).
Defined.

(** ** Repeated effects and repeated events *)

(** Running the read of line 26 a second time, as a framework that runs
    effects twice does, holds the value the first run left; and an event
    delivered twice leaves what one delivery leaves. *)
Theorem hook_updates_idempotent
    (w : Window) (k : OpenAiGlobals.key) (e : SetGlobalsEvent)
    (value : JsVal) :
  useOpenAiGlobal.mount w k (useOpenAiGlobal.mount w k value)
  = useOpenAiGlobal.mount w k value
  ∧ useOpenAiGlobal.handler k e (useOpenAiGlobal.handler k e value)
    = useOpenAiGlobal.handler k e value.
Proof.
  unfold useOpenAiGlobal.mount, useOpenAiGlobal.handler. split.
  - destruct (truthy (useOpenAiGlobal.read w k)) eqn:Ht; by rewrite ?Ht.
  - destruct (has _ _) eqn:Hh; by rewrite ?Hh.
Qed.
